(** * Parallel guardrail with LLM cancellation (langgraph_demo.py)

    A shallow embedding of [parallel_guardrail_node] and of the part of
    asyncio it relies on: tasks created with [asyncio.create_task], the
    event loop that advances them while the node is suspended in an
    [await], [Task.cancel], and exceptions.  Python lists are objects on a
    heap, so that sharing and in-place mutation can be told apart.

    [print] calls of the node and of its two coroutines write to stdout
    only and are left out.

    The file also embeds what the three files have besides the
    node: the report of [__main__] in langgraph_demo.py, and the tools,
    the middleware hooks and the [try] statement of create_agent_demo.py
    and create_deep_agent.py, with the lines they print. *)

From stdpp Require Import gmap strings list.
From Stdlib Require Import Lia.

Open Scope string_scope.
Open Scope list_scope.

(** ** Python values used by the node *)

(** Exceptions.  [CancelledError] is the one [except asyncio.CancelledError]
    catches; [IndexError] is what [l[-1]] raises on an empty list. *)
Inductive exn :=
| CancelledError
| IndexError
| OtherError (name : string).

#[global] Instance exn_eq_dec : EqDecision exn.
Proof. solve_decision. Defined.

(** [HumanMessage(content=...)]; other message classes only differ in [role]. *)
Inductive role := Human | AI | System.

Record message := { msg_role : role; content : string }.

Definition HumanMessage (c : string) : message :=
  {| msg_role := Human; content := c |}.

(** A reference to a list object. *)
Definition loc := nat.

(** [class State(TypedDict)]: [messages] holds a reference to a list. *)
Record State := {
  messages : loc;
  guardrail_passed : bool;
  error : option string
}.

(** ** Coroutines and tasks *)

(** What remains of a coroutine when it is next resumed: it returns, it
    raises, or it runs up to an [await] on something not yet ready.  At
    such a suspension point the loop later resumes it either normally
    ([k]) or by throwing [CancelledError] into it ([h], the enclosing
    [except] clause, or [Fail CancelledError] when there is none). *)
Inductive coro (A : Type) :=
| Finish (a : A)
| Fail (e : exn)
| Suspend (k h : coro A).

Arguments Finish {A} a.
Arguments Fail {A} e.
Arguments Suspend {A} k h.

(** [await asyncio.sleep(n)] followed by [k], inside a handler [h] for
    [CancelledError]; one second is one round of the loop. *)
Fixpoint asyncio_sleep {A} (n : nat) (k h : coro A) : coro A :=
  match n with
  | 0 => k
  | S n' => Suspend (asyncio_sleep n' k h) h
  end.

(** How a task ended: [Task.result()] or [Task.exception()]; a cancelled
    task ends with [Exc CancelledError]. *)
Inductive completion (A : Type) :=
| Result (a : A)
| Exc (e : exn).

Arguments Result {A} a.
Arguments Exc {A} e.

(** An [asyncio.Task]: suspended with its two continuations and the
    pending cancellation request, or done. *)
Inductive task (A : Type) :=
| Pending (k h : coro A) (must_cancel : bool)
| Done (r : completion A).

Arguments Pending {A} k h must_cancel.
Arguments Done {A} r.

(** A task just created has not run yet: a cancellation delivered now
    raises [CancelledError] before the body is entered. *)
Definition spawn {A} (c : coro A) : task A :=
  Pending c (Fail CancelledError) false.

(** Run a coroutine up to its next suspension point. *)
Definition advance {A} (c : coro A) : task A :=
  match c with
  | Finish a => Done (Result a)
  | Fail e => Done (Exc e)
  | Suspend k h => Pending k h false
  end.

(** One step of a task by the loop: the cancellation request, if any, is
    delivered and cleared. *)
Definition step_task {A} (t : task A) : task A :=
  match t with
  | Pending k h mc => advance (if mc then h else k)
  | Done r => Done r
  end.

(** [Task.done()] *)
Definition done {A} (t : task A) : bool :=
  match t with
  | Done _ => true
  | Pending _ _ _ => false
  end.

(** [Task.cancel()]: no effect on a task that is done. *)
Definition request_cancel {A} (t : task A) : task A :=
  match t with
  | Pending k h _ => Pending k h true
  | Done r => Done r
  end.

(** Number of resumptions a coroutine still needs when never cancelled,
    and the way it then ends. *)
Fixpoint duration {A} (c : coro A) : nat :=
  match c with
  | Suspend k _ => S (duration k)
  | _ => 0
  end.

Fixpoint fate {A} (c : coro A) : completion A :=
  match c with
  | Finish a => Result a
  | Fail e => Exc e
  | Suspend k _ => fate k
  end.

(** Steps of the loop a task needs to be done, and how it ends, given its
    pending cancellation request. *)
Definition steps_left {A} (t : task A) : nat :=
  match t with
  | Pending k h mc => S (duration (if mc then h else k))
  | Done _ => 0
  end.

Definition ending {A} (t : task A) : completion A :=
  match t with
  | Pending k h mc => fate (if mc then h else k)
  | Done r => r
  end.

(** ** The event loop *)

Inductive tid := Guardrail | Llm.

#[global] Instance tid_eq_dec : EqDecision tid.
Proof. solve_decision. Defined.

(** What the node and the loop do, in order. *)
Inductive event :=
| EvCreate (t : tid)      (* asyncio.create_task *)
| EvAwait (t : tid)       (* the node suspends on the task *)
| EvStep (t : tid)        (* the loop advances the task *)
| EvResume (t : tid)      (* the node resumes with the task's outcome *)
| EvCancel (t : tid).     (* Task.cancel() *)

#[global] Instance event_eq_dec : EqDecision event.
Proof. solve_decision. Defined.

(** The heap of list objects, the two tasks of one invocation, the
    number of loop rounds so far and the trace of events. *)
Record world := {
  heap : gmap loc (list message);
  guardrail_task : option (task bool);
  llm_task : option (task string);
  clock : nat;
  log : list event
}.

Definition emit (e : event) (w : world) : world :=
  {| heap := heap w; guardrail_task := guardrail_task w;
     llm_task := llm_task w; clock := clock w; log := log w ++ [e] |}.

Definition step_slot {A} (name : tid) (slot : option (task A))
  : option (task A) * list event :=
  match slot with
  | Some (Pending k h mc) => (Some (step_task (Pending k h mc)), [EvStep name])
  | other => (other, [])
  end.

(** One round of the loop: every task that is not done is advanced once,
    in creation order. *)
Definition tick (w : world) : world :=
  let (g, eg) := step_slot Guardrail (guardrail_task w) in
  let (l, el) := step_slot Llm (llm_task w) in
  {| heap := heap w; guardrail_task := g; llm_task := l;
     clock := S (clock w); log := log w ++ eg ++ el |}.

Fixpoint run_loop (n : nat) (w : world) : world :=
  match n with
  | 0 => w
  | S n' => run_loop n' (tick w)
  end.

(** ** Computations of the node: state and exceptions *)

Inductive result (A : Type) :=
| Returned (a : A)
| Raised (e : exn).

Arguments Returned {A} a.
Arguments Raised {A} e.

Definition M (A : Type) : Type := world -> result A * world.

Definition ret {A} (a : A) : M A := fun w => (Returned a, w).

Definition raise {A} (e : exn) : M A := fun w => (Raised e, w).

Definition bind {A B} (m : M A) (k : A -> M B) : M B :=
  fun w =>
    match m w with
    | (Returned a, w') => k a w'
    | (Raised e, w') => (Raised e, w')
    end.

Notation "'let*' x ':=' m 'in' k" := (bind m (fun x => k))
  (at level 10, x name, m at level 100, k at level 200).
Notation "m ';;' k" := (bind m (fun _ => k))
  (at level 100, k at level 200, right associativity).

(** [try: body except CancelledError: handler] *)
Definition try_except_cancelled {A} (body : M A) (handler : M A) : M A :=
  fun w =>
    match body w with
    | (Raised CancelledError, w') => handler w'
    | other => other
    end.

(** *** Lists on the heap *)

(** The contents of the list a reference points to.  A reference held by
    a state always points to a list; the default of the total lookup is
    only there for references that were never allocated. *)
Definition deref (l : loc) : M (list message) :=
  fun w => (Returned (heap w !!! l), w).

(** [l[-1]] *)
Definition getitem_last (l : list message) : M message :=
  match last l with
  | Some m => ret m
  | None => raise IndexError
  end.

(** Truth value of a list: non-empty. *)
Definition truthy (l : list message) : bool :=
  match l with
  | [] => false
  | _ :: _ => true
  end.

(** [l + extra]: a new list object; [l] is left as it is. *)
Definition list_add (l : loc) (extra : list message) : M loc :=
  fun w =>
    let new : loc := fresh (dom (heap w)) in
    (Returned new,
     {| heap := <[new := (heap w !!! l) ++ extra]> (heap w);
        guardrail_task := guardrail_task w; llm_task := llm_task w;
        clock := clock w; log := log w |}).

(** *** Tasks *)

Definition create_guardrail_task (c : coro bool) : M unit :=
  fun w =>
    (Returned tt,
     emit (EvCreate Guardrail)
       {| heap := heap w; guardrail_task := Some (spawn c);
          llm_task := llm_task w; clock := clock w; log := log w |}).

Definition create_llm_task (c : coro string) : M unit :=
  fun w =>
    (Returned tt,
     emit (EvCreate Llm)
       {| heap := heap w; guardrail_task := guardrail_task w;
          llm_task := Some (spawn c); clock := clock w; log := log w |}).

(** The outcome the awaiting coroutine gets from a task once the loop has
    run; [Task.result()] on a task that is not done raises
    InvalidStateError, a name that was never bound UnboundLocalError. *)
Definition outcome_of_slot {A} (slot : option (task A)) : result A :=
  match slot with
  | Some (Done (Result a)) => Returned a
  | Some (Done (Exc e)) => Raised e
  | Some (Pending _ _ _) => Raised (OtherError "InvalidStateError")
  | None => Raised (OtherError "UnboundLocalError")
  end.

Definition slot_steps {A} (slot : option (task A)) : nat :=
  match slot with
  | Some t => steps_left t
  | None => 0
  end.

(** [await guardrail_task]: the node is suspended while the loop runs
    until the task is done, then gets its result or its exception.  The
    rounds this takes are read off the task ([steps_left]); that the
    task is done after them is [steps_finish] below. *)
Definition await_guardrail_task : M bool :=
  fun w =>
    let w1 := run_loop (slot_steps (guardrail_task w)) (emit (EvAwait Guardrail) w) in
    (outcome_of_slot (guardrail_task w1), emit (EvResume Guardrail) w1).

(** [await llm_task] *)
Definition await_llm_task : M string :=
  fun w =>
    let w1 := run_loop (slot_steps (llm_task w)) (emit (EvAwait Llm) w) in
    (outcome_of_slot (llm_task w1), emit (EvResume Llm) w1).

(** [llm_task.cancel()] *)
Definition cancel_llm_task : M unit :=
  fun w =>
    (Returned tt,
     emit (EvCancel Llm)
       {| heap := heap w; guardrail_task := guardrail_task w;
          llm_task := request_cancel <$> llm_task w;
          clock := clock w; log := log w |}).

(** ** langgraph_demo.py *)

Definition blocked_message : string :=
  "Request blocked due to content policy violation".

Section Coordinator.

(** The two coroutine functions the node calls. *)
Variable guard : string -> coro bool.
Variable producer : list message -> coro string.

(** The body of [parallel_guardrail_node], with [check_guardrail] and
    [generate_llm_response] as [guard] and [producer]. *)
Definition run (state : State) : M State :=
  let* msgs := deref (messages state) in
  let* user_message :=
    (if truthy msgs
     then let* m := getitem_last msgs in ret (content m)
     else ret "") in
  create_guardrail_task (guard user_message);;
  let* msgs := deref (messages state) in
  create_llm_task (producer msgs);;
  let* passed := await_guardrail_task in
  if negb passed then
    cancel_llm_task;;
    try_except_cancelled (await_llm_task;; ret tt) (ret tt);;
    ret {| messages := messages state;
           guardrail_passed := false;
           error := Some blocked_message |}
  else
    let* llm_response := await_llm_task in
    let* extended := list_add (messages state) [HumanMessage llm_response] in
    ret {| messages := extended;
           guardrail_passed := true;
           error := None |}.

End Coordinator.

(** [violation_detected = True  # Change to False to test passing scenario] *)
Definition violation_detected : bool := true.

Definition check_guardrail (user_message : string) : coro bool :=
  asyncio_sleep 1
    (if violation_detected then Finish false else Finish true)
    (Fail CancelledError).

Definition llm_text : string := "AI Response: Here is a detailed answer...".

(** The [except asyncio.CancelledError] clause prints and re-raises. *)
Definition generate_llm_response (msgs : list message) : coro string :=
  asyncio_sleep 30 (Finish llm_text) (Fail CancelledError).

Definition parallel_guardrail_node : State -> M State :=
  run check_guardrail generate_llm_response.

(** The compiled graph is START -> parallel_guardrail -> END; every key of
    [State] is overwritten by the node's return value. *)
Definition app_ainvoke (state : State) : M State :=
  parallel_guardrail_node state.

(** A world in which no task exists yet. *)
Definition initial (h : gmap loc (list message)) : world :=
  {| heap := h; guardrail_task := None; llm_task := None;
     clock := 0; log := [] |}.

Definition demo_heap : gmap loc (list message) :=
  {[ 0 := [HumanMessage "Generate something that violates policy"] ]}.

Definition demo_state : State :=
  {| messages := 0; guardrail_passed := false; error := None |}.

(** ** The spec's vocabulary, read off the node's results *)

(** The spec's [Outcome] sum type. *)
Inductive Outcome :=
| Completed (artifact : string)
| Blocked (reason : string)
| ProducerFailed (e : exn)
| GuardFailed (e : exn).

(** The outcome a caller reads from what the node gave back: a state with
    [guardrail_passed = True], [error = None] and a last message is
    [Completed] with that message's content; a state with
    [guardrail_passed = False] and an error string is [Blocked].  An
    exception that leaves the node is no outcome value. *)
Definition outcome_of (rw : result State * world) : option Outcome :=
  match rw.1 with
  | Returned s =>
      if guardrail_passed s then
        match error s, last (heap rw.2 !!! messages s) with
        | None, Some m => Some (Completed (content m))
        | _, _ => None
        end
      else
        match error s with
        | Some reason => Some (Blocked reason)
        | None => None
        end
  | Raised _ => None
  end.

(** The text of the last message, or the empty string: what the node
    passes to the guard. *)
Definition user_message_of (msgs : list message) : string :=
  match last msgs with
  | Some m => content m
  | None => ""
  end.

(** [n] steps of a task. *)
Fixpoint steps {A} (n : nat) (t : task A) : task A :=
  match n with
  | 0 => t
  | S n' => steps n' (step_task t)
  end.

(** The events of [n] rounds of the loop. *)
Fixpoint loop_events (n : nat) (g : option (task bool)) (l : option (task string))
  : list event :=
  match n with
  | 0 => []
  | S n' =>
      (step_slot Guardrail g).2 ++ (step_slot Llm l).2
        ++ loop_events n' (step_slot Guardrail g).1 (step_slot Llm l).1
  end.

Definition is_step (e : event) : bool :=
  match e with
  | EvStep _ => true
  | _ => false
  end.

(** The state of the producer's task when the node resumes with the
    guard's outcome, and the way the task ends once cancellation has been
    requested at that moment. *)
Definition llm_at_verdict (g : coro bool) (p : coro string) : task string :=
  steps (S (duration g)) (spawn p).

Definition llm_after_cancel (g : coro bool) (p : coro string) : completion string :=
  ending (request_cancel (llm_at_verdict g p)).

(** The world once both tasks exist, and once the node has resumed with
    the guard's outcome. *)
Definition race_events (g : coro bool) (p : coro string) : list event :=
  loop_events (S (duration g)) (Some (spawn g)) (Some (spawn p)).

Definition at_verdict (g : coro bool) (p : coro string) (w : world) : world :=
  {| heap := heap w;
     guardrail_task := Some (Done (fate g));
     llm_task := Some (llm_at_verdict g p);
     clock := S (duration g) + clock w;
     log := log w ++ [EvCreate Guardrail; EvCreate Llm; EvAwait Guardrail]
                  ++ race_events g p ++ [EvResume Guardrail] |}.

(** Rounds and events of [await llm_task] from a given state of the task,
    the guard's task being done. *)
Definition llm_events (g : coro bool) (t : task string) : list event :=
  loop_events (steps_left t) (Some (Done (fate g))) (Some t).

(** The world at the end of the rejection branch. *)
Definition after_rejection (g : coro bool) (p : coro string) (w : world) : world :=
  let t := request_cancel (llm_at_verdict g p) in
  {| heap := heap w;
     guardrail_task := Some (Done (fate g));
     llm_task := Some (Done (ending t));
     clock := steps_left t + (S (duration g) + clock w);
     log := log (at_verdict g p w) ++ [EvCancel Llm; EvAwait Llm]
                  ++ llm_events g t ++ [EvResume Llm] |}.

(** The world once [await llm_task] is over in the acceptance branch. *)
Definition after_acceptance (g : coro bool) (p : coro string) (w : world) : world :=
  let t := llm_at_verdict g p in
  {| heap := heap w;
     guardrail_task := Some (Done (fate g));
     llm_task := Some (Done (fate p));
     clock := steps_left t + (S (duration g) + clock w);
     log := log (at_verdict g p w) ++ [EvAwait Llm]
                  ++ llm_events g t ++ [EvResume Llm] |}.

(** The state returned by the rejection branch. *)
Definition blocked_state (state : State) : State :=
  {| messages := messages state; guardrail_passed := false;
     error := Some blocked_message |}.

(** A heap with one more list. *)
Definition with_list (l : loc) (v : list message) (w : world) : world :=
  {| heap := <[l := v]> (heap w); guardrail_task := guardrail_task w;
     llm_task := llm_task w; clock := clock w; log := log w |}.

(** What the rejection branch gives back, from the way the producer's
    task ended: only [CancelledError] is caught around [await llm_task]. *)
Definition rejection_result (c : completion string) (state : State) : result State :=
  match c with
  | Result _ => Returned (blocked_state state)
  | Exc CancelledError => Returned (blocked_state state)
  | Exc e => Raised e
  end.

(** The caller can see something the producer made: the node returned a
    state whose message list is not the list it was given. *)
Definition artifact_observable (state : State) (w : world)
    (rw : result State * world) : Prop :=
  exists s, rw.1 = Returned s
    /\ heap rw.2 !!! messages s <> heap w !!! messages state.

(** Collaborators used as concrete inputs. *)
Definition reject_after (n : nat) (user_message : string) : coro bool :=
  asyncio_sleep n (Finish false) (Fail CancelledError).

Definition accept_after (n : nat) (user_message : string) : coro bool :=
  asyncio_sleep n (Finish true) (Fail CancelledError).

Definition guard_raising (e : exn) (user_message : string) : coro bool :=
  Fail e.

Definition produce_after (n : nat) (a : string) (msgs : list message) : coro string :=
  asyncio_sleep n (Finish a) (Fail CancelledError).

Definition producer_raising (e : exn) (msgs : list message) : coro string :=
  Fail e.

(** A producer that swallows [CancelledError] and returns its text one
    round later all the same. *)
Definition stubborn_producer (a : string) (msgs : list message) : coro string :=
  asyncio_sleep 5 (Finish a) (Suspend (Finish a) (Finish a)).

Definition ValueError : exn := OtherError "ValueError".

(** Number of times the loop advanced a given task in a trace. *)
Definition count_steps (t : tid) (evs : list event) : nat :=
  length (filter (fun e => e = EvStep t) evs).

(** An input state whose message list is empty. *)
Definition empty_heap : gmap loc (list message) := {[ 0 := [] ]}.

(** ** langgraph_demo.py, the [__main__] block *)

(** [s * n] on strings. *)
Fixpoint str_repeat (s : string) (n : nat) : string :=
  match n with
  | 0 => ""
  | S n' => s +:+ str_repeat s n'
  end.

(** The newline character. *)
Definition nl : string := String (Ascii.ascii_of_nat 10) "".

(** ['=' * 60] *)
Definition bar : string := str_repeat "=" 60.

(** [str(b)] for a bool, as an f-string prints it. *)
Definition str_bool (b : bool) : string := if b then "True" else "False".

(** Truth value of [result['error']]: [None] and the empty string are
    false. *)
Definition truthy_error (e : option string) : bool :=
  match e with
  | Some (String _ _) => true
  | _ => false
  end.

(** The lines printed once [app.ainvoke] has returned [result]:
    [print(f"Guardrail passed: ...")], then the error if there is one,
    else the content of the last message. *)
Definition report (result : State) : M (list string) :=
  let* line :=
    (if truthy_error (error result)
     then ret ("Error: " +:+ default "" (error result))
     else
       let* msgs := deref (messages result) in
       let* m := getitem_last msgs in
       ret ("Response: " +:+ content m)) in
  ret [bar;
       "Guardrail passed: " +:+ str_bool (guardrail_passed result);
       line;
       bar +:+ nl].

(** ** create_agent_demo.py and create_deep_agent.py *)

(** An element of [state["messages"]]: an object with a [content]
    attribute, or anything else, of which the code only takes [str()]. *)
Inductive item :=
| WithContent (c : string)
| Plain (str : string).

(** [AgentState]: the ["messages"] key may be missing. *)
Record AgentState := { agent_messages : option (list item) }.

(** What a middleware hook does at its end: [return None], or
    [raise ValueError(msg)]. *)
Inductive hook_end :=
| ReturnNone
| RaiseValueError (msg : string).

(** [x.content if hasattr(x, 'content') else str(x)] *)
Definition content_or_str (x : item) : string :=
  match x with
  | WithContent c => c
  | Plain s => s
  end.

(** [s[:n]] *)
Definition str_prefix (n : nat) (s : string) : string := String.substring 0 n s.

(** [state.get("messages", [])] *)
Definition get_messages (state : AgentState) : list item :=
  default [] (agent_messages state).

Module CreateAgent.

(** [def search_tool(query)] *)
Definition search_tool (query : string) : string :=
  "Search results for: " +:+ query.

(** [violation_detected = True  # Change to False to test passing scenario] *)
Definition violation_detected : bool := true.

(** [has_issues = False  # Change to True to test output blocking] *)
Definition has_issues : bool := false.

(** [InputGuardrailMiddleware.before_model]: the lines printed and the
    way the hook ends. *)
Definition before_model {R} (state : AgentState) (runtime : R)
  : list string * hook_end :=
  let out := [nl +:+ bar; "MIDDLEWARE: Checking input guardrails..."; bar] in
  let messages := get_messages state in
  match last messages with
  | None => (out, ReturnNone)
  | Some m =>
      let user_message := content_or_str m in
      let out := out ++ ["Input: '" +:+ user_message +:+ "'"] in
      if violation_detected then
        (out ++ ["Result: VIOLATION DETECTED";
                 "Action: Blocking model call" +:+ nl],
         RaiseValueError
           "Content policy violation: Request blocked by input guardrail")
      else
        (out ++ ["Result: PASS - content is safe";
                 "Action: Proceeding to model call" +:+ nl],
         ReturnNone)
  end.

(** [OutputGuardrailMiddleware.after_model] *)
Definition after_model {R} (state : AgentState) (runtime : R)
  : list string * hook_end :=
  let out := [nl +:+ bar; "MIDDLEWARE: Checking output guardrails..."; bar] in
  let messages := get_messages state in
  match last messages with
  | None => (out, ReturnNone)
  | Some last_message =>
      let response_content := content_or_str last_message in
      let out := out ++ ["Output: '" +:+ str_prefix 100 response_content +:+ "...'"] in
      if has_issues then
        (out ++ ["Result: OUTPUT VIOLATION DETECTED";
                 "Action: Blocking response" +:+ nl],
         RaiseValueError
           "Output guardrail violation: Response contains unsafe content")
      else
        (out ++ ["Result: PASS - response is safe";
                 "Action: Allowing response" +:+ nl],
         ReturnNone)
  end.

(** Exceptions that can reach the [try] statement of the [__main__]
    block. *)
Inductive py_exn :=
| ValueErr (msg : string)
| IndexErr
| AttributeErr
| OtherErr (name : string).

(** How [agent.invoke(...)] ended: with a result whose ["messages"] is a
    list, or with an exception. *)
Inductive invoked :=
| InvokeReturned (messages : list item)
| InvokeRaised (e : py_exn).

(** [result['messages'][-1].content] *)
Definition last_content (messages : list item) : string + py_exn :=
  match last messages with
  | None => inr IndexErr
  | Some (WithContent c) => inl c
  | Some (Plain _) => inr AttributeErr
  end.

(** Test 1 of the [__main__] block, from the way [agent.invoke] ended:
    the lines printed by the [try] statement and the exception that
    leaves it, if any. *)
Definition test1 (r : invoked) : list string * option py_exn :=
  match r with
  | InvokeReturned messages =>
      let out := [nl +:+ bar; "SUCCESS: Request completed"; bar] in
      match last_content messages with
      | inl c => (out ++ ["Response: " +:+ c +:+ nl], None)
      | inr e => (out, Some e)
      end
  | InvokeRaised (ValueErr msg) =>
      ([nl +:+ bar; "BLOCKED: Request stopped by input guardrail"; bar;
        "Reason: " +:+ msg +:+ nl], None)
  | InvokeRaised e => ([], Some e)
  end.

End CreateAgent.

Module DeepAgent.

(** [def research_tool(query)] *)
Definition research_tool (query : string) : string :=
  "Research findings for: " +:+ query.

Definition violation_detected : bool := true.

Definition has_issues : bool := false.

(** [InputGuardrailMiddleware.before_model] *)
Definition before_model {R} (state : AgentState) (runtime : R)
  : list string * hook_end :=
  let out := [nl +:+ bar; "INPUT MIDDLEWARE: Checking before planning..."; bar] in
  let messages := get_messages state in
  match last messages with
  | None => (out, ReturnNone)
  | Some last_message =>
      let user_input := content_or_str last_message in
      let out := out ++ ["User request: '" +:+ user_input +:+ "'"] in
      if violation_detected then
        (out ++ ["Result: VIOLATION DETECTED";
                 "Action: Blocking plan creation" +:+ nl],
         RaiseValueError
           "Content policy violation: Deep agent blocked by input guardrail")
      else
        (out ++ ["Result: PASS - request is safe";
                 "Action: Agent will create plan and execute" +:+ nl],
         ReturnNone)
  end.

(** [OutputGuardrailMiddleware.after_model] *)
Definition after_model {R} (state : AgentState) (runtime : R)
  : list string * hook_end :=
  let out := [nl +:+ bar; "OUTPUT MIDDLEWARE: Checking agent response..."; bar] in
  let messages := get_messages state in
  match last messages with
  | None => (out, ReturnNone)
  | Some last_message =>
      let response := content_or_str last_message in
      let out := out ++ ["Agent response: '" +:+ str_prefix 100 response +:+ "...'"] in
      if has_issues then
        (out ++ ["Result: OUTPUT VIOLATION DETECTED";
                 "Action: Blocking response" +:+ nl],
         RaiseValueError "Output guardrail violation: Response contains issues")
      else
        (out ++ ["Result: PASS - response is safe";
                 "Action: Allowing response" +:+ nl],
         ReturnNone)
  end.

End DeepAgent.

(** The trace the node adds as shipped, whatever the input. *)
Definition shipped_trace : list event :=
  [EvCreate Guardrail; EvCreate Llm; EvAwait Guardrail;
   EvStep Guardrail; EvStep Llm; EvStep Guardrail; EvStep Llm;
   EvResume Guardrail; EvCancel Llm; EvAwait Llm; EvStep Llm; EvResume Llm].

(** ** The loop and the tasks *)

Section Tasks.
Context {A : Type}.
Implicit Types (c k h : coro A) (t : task A).

Lemma ending_advance c : ending (advance c) = fate c.
Proof. by destruct c. Qed.

Lemma ending_step t : ending (step_task t) = ending t.
Proof. destruct t as [k h mc|r]; [apply ending_advance | done]. Qed.

Lemma ending_steps n t : ending (steps n t) = ending t.
Proof.
  revert t; induction n as [|n IH]; intros t; [done|].
  simpl. by rewrite IH, ending_step.
Qed.

Lemma ending_spawn c : ending (spawn c) = fate c.
Proof. done. Qed.

Lemma steps_Done n (r : completion A) : steps n (Done r) = Done r.
Proof. induction n; [done|]. by simpl. Qed.

Lemma steps_left_advance c : steps_left (advance c) = duration c.
Proof. by destruct c. Qed.

Lemma steps_advance c : steps (duration c) (advance c) = Done (fate c).
Proof. induction c as [a|e|k IHk h IHh]; [done..|]. simpl. apply IHk. Qed.

(** Every task is done after [steps_left] steps, with [ending]. *)
Lemma steps_finish t : steps (steps_left t) t = Done (ending t).
Proof.
  destruct t as [k h mc|r]; [|done].
  simpl. apply steps_advance.
Qed.

Lemma steps_add n m t : steps (n + m) t = steps m (steps n t).
Proof. revert t; induction n as [|n IH]; intros t; [done|]. simpl. apply IH. Qed.

Lemma steps_spawn c : steps (S (duration c)) (spawn c) = Done (fate c).
Proof. apply (steps_finish (spawn c)). Qed.

Lemma step_slot_fst (name : tid) (slot : option (task A)) :
  (step_slot name slot).1 = step_task <$> slot.
Proof. by destruct slot as [[k h mc|r]|]. Qed.

Lemma step_slot_is_step (name : tid) (slot : option (task A)) :
  forallb is_step (step_slot name slot).2 = true.
Proof. by destruct slot as [[k h mc|r]|]. Qed.

Lemma steps_fmap n (slot : option (task A)) :
  steps n <$> (step_task <$> slot) = steps (S n) <$> slot.
Proof. by destruct slot. Qed.

End Tasks.

(** A task that is not cancelled ends the way its coroutine does. *)
Lemma ending_llm_at_verdict g p : ending (llm_at_verdict g p) = fate p.
Proof. unfold llm_at_verdict. by rewrite ending_steps, ending_spawn. Qed.

Lemma loop_events_is_step n g l : forallb is_step (loop_events n g l) = true.
Proof.
  revert g l; induction n as [|n IH]; intros g l; [done|].
  simpl. rewrite !forallb_app, !step_slot_is_step, IH. done.
Qed.

Lemma tick_eq w :
  tick w =
  {| heap := heap w;
     guardrail_task := step_task <$> guardrail_task w;
     llm_task := step_task <$> llm_task w;
     clock := S (clock w);
     log := log w ++ (step_slot Guardrail (guardrail_task w)).2
                  ++ (step_slot Llm (llm_task w)).2 |}.
Proof.
  unfold tick.
  rewrite <- (step_slot_fst Guardrail), <- (step_slot_fst Llm).
  destruct (step_slot Guardrail (guardrail_task w)), (step_slot Llm (llm_task w)).
  done.
Qed.

(** [n] rounds of the loop advance both tasks [n] times and touch nothing
    else. *)
Lemma run_loop_eq n w :
  run_loop n w =
  {| heap := heap w;
     guardrail_task := steps n <$> guardrail_task w;
     llm_task := steps n <$> llm_task w;
     clock := n + clock w;
     log := log w ++ loop_events n (guardrail_task w) (llm_task w) |}.
Proof.
  revert w; induction n as [|n IH]; intros w.
  - destruct w as [h g l c lg]. simpl. rewrite app_nil_r.
    by destruct g, l.
  - simpl. rewrite IH, tick_eq. simpl.
    rewrite !steps_fmap, !step_slot_fst, <- !app_assoc.
    f_equal. lia.
Qed.

Example demo_run :
  let (r, w) := app_ainvoke demo_state (initial demo_heap) in
  r = Returned {| messages := 0; guardrail_passed := false;
                  error := Some blocked_message |}
  /\ llm_task w = Some (Done (Exc CancelledError))
  /\ clock w = 3.
Proof. vm_compute. auto. Qed.

(** ** The node, branch by branch *)

Lemma user_message_eval msgs w :
  (if truthy msgs
   then let* m := getitem_last msgs in ret (content m)
   else ret "") w = (Returned (user_message_of msgs), w).
Proof.
  unfold user_message_of, getitem_last, bind, ret.
  destruct msgs as [|m l]; [done|].
  simpl truthy. cbv iota.
  destruct (last (m :: l)) as [x|] eqn:E; [done|].
  apply last_None in E. discriminate.
Qed.

Section Branches.
Variable guard : string -> coro bool.
Variable producer : list message -> coro string.
Variable state : State.
Variable w : world.

Let msgs := heap w !!! messages state.
Let g := guard (user_message_of msgs).
Let p := producer msgs.

(** Up to the guard's outcome, for any code [K] that follows. *)
Lemma await_guard_eq (K : bool -> M State) :
  (let* ms := deref (messages state) in
   let* user_message :=
     (if truthy ms
      then let* m := getitem_last ms in ret (content m)
      else ret "") in
   create_guardrail_task (guard user_message);;
   let* ms := deref (messages state) in
   create_llm_task (producer ms);;
   let* passed := await_guardrail_task in
   K passed) w
  = match fate g with
    | Result b => K b (at_verdict g p w)
    | Exc e => (Raised e, at_verdict g p w)
    end.
Proof.
  unfold bind at 1. unfold deref at 1. cbv beta iota.
  unfold bind at 1. rewrite user_message_eval.
  fold msgs. fold g.
  unfold bind, deref, create_guardrail_task, create_llm_task,
    await_guardrail_task, emit. simpl.
  fold msgs. fold p.
  rewrite run_loop_eq. simpl.
  pose proof (steps_spawn g) as Hg. simpl in Hg. rewrite Hg.
  unfold at_verdict, race_events, llm_at_verdict. simpl.
  rewrite <- !app_assoc. simpl.
  replace (duration g + S (clock w)) with (S (duration g) + clock w) by lia.
  by destruct (fate g).
Qed.

(** [cancel(); try: await llm_task except CancelledError; return ...] *)
Lemma rejection_branch_eq :
  (cancel_llm_task;;
   try_except_cancelled (await_llm_task;; ret tt) (ret tt);;
   ret (blocked_state state)) (at_verdict g p w)
  = (rejection_result (llm_after_cancel g p) state, after_rejection g p w).
Proof.
  unfold bind, cancel_llm_task, try_except_cancelled, await_llm_task, emit, ret.
  simpl. rewrite run_loop_eq. simpl.
  rewrite steps_finish, steps_Done.
  unfold llm_after_cancel, after_rejection, llm_events. simpl.
  rewrite <- !app_assoc. simpl.
  destruct (ending (request_cancel (llm_at_verdict g p))) as [a|[| |n]]; done.
Qed.

(** [llm_response = await llm_task; return ...] *)
Lemma acceptance_branch_eq :
  (let* llm_response := await_llm_task in
   let* extended := list_add (messages state) [HumanMessage llm_response] in
   ret {| messages := extended; guardrail_passed := true; error := None |})
    (at_verdict g p w)
  = match fate p with
    | Result a =>
        (Returned {| messages := fresh (dom (heap w));
                     guardrail_passed := true; error := None |},
         with_list (fresh (dom (heap w))) (msgs ++ [HumanMessage a])
           (after_acceptance g p w))
    | Exc e => (Raised e, after_acceptance g p w)
    end.
Proof.
  unfold bind, await_llm_task, list_add, emit, ret.
  simpl. rewrite run_loop_eq. simpl.
  rewrite steps_finish, steps_Done, ending_llm_at_verdict.
  unfold after_acceptance, llm_events, with_list. simpl.
  rewrite <- !app_assoc. simpl.
  by destruct (fate p).
Qed.

(** The node in full. *)
Lemma run_eq :
  run guard producer state w
  = match fate g with
    | Exc e => (Raised e, at_verdict g p w)
    | Result false =>
        (rejection_result (llm_after_cancel g p) state, after_rejection g p w)
    | Result true =>
        match fate p with
        | Result a =>
            (Returned {| messages := fresh (dom (heap w));
                         guardrail_passed := true; error := None |},
             with_list (fresh (dom (heap w))) (msgs ++ [HumanMessage a])
               (after_acceptance g p w))
        | Exc e => (Raised e, after_acceptance g p w)
        end
    end.
Proof.
  unfold run. rewrite await_guard_eq.
  destruct (fate g) as [[|]|e]; [| |done].
  - simpl negb. cbv iota. apply acceptance_branch_eq.
  - simpl negb. cbv iota. apply rejection_branch_eq.
Qed.

End Branches.

(** ** Consequences used by several properties *)

Lemma rejection_result_cases c state :
  rejection_result c state = Returned (blocked_state state)
  \/ exists e, e <> CancelledError /\ c = Exc e
       /\ rejection_result c state = Raised e.
Proof.
  destruct c as [a|[| |n]]; simpl; eauto.
  - right. eexists. split; [|done]. discriminate.
  - right. eexists. split; [|done]. discriminate.
Qed.

Section TaskCounting.
Context {A : Type}.
Implicit Types (t : task A).

Lemma steps_left_step t : steps_left (step_task t) = steps_left t - 1.
Proof.
  destruct t as [k h mc|r]; [|done].
  simpl. rewrite steps_left_advance. lia.
Qed.

Lemma steps_left_steps n t : steps_left (steps n t) = steps_left t - n.
Proof.
  revert t; induction n as [|n IH]; intros t; simpl; [lia|].
  rewrite IH, steps_left_step. lia.
Qed.

(** A task that needs no more than [n] steps is done after [n] steps. *)
Lemma steps_enough n t : steps_left t <= n -> steps n t = Done (ending t).
Proof.
  intros Hn. replace n with (steps_left t + (n - steps_left t)) by lia.
  by rewrite steps_add, steps_finish, steps_Done.
Qed.

End TaskCounting.

(** A producer no slower than the guard is done when the node resumes. *)
Lemma llm_done_at_verdict g p :
  duration p <= duration g -> llm_at_verdict g p = Done (fate p).
Proof.
  intros Hd. unfold llm_at_verdict.
  rewrite steps_enough; [done|]. simpl. lia.
Qed.

Lemma llm_after_cancel_done g p :
  duration p <= duration g -> llm_after_cancel g p = fate p.
Proof.
  intros Hd. unfold llm_after_cancel. by rewrite llm_done_at_verdict.
Qed.

Lemma total_lookup_fresh (h : gmap loc (list message)) (v : list message) :
  <[fresh (dom h) := v]> h !!! (fresh (dom h) : loc) = v.
Proof. apply lookup_total_insert_eq. Qed.

Lemma lookup_other_fresh (h : gmap loc (list message)) (v : list message) (l : loc) :
  l ∈ dom h -> <[fresh (dom h) := v]> h !! l = h !! l.
Proof.
  intros Hl. apply lookup_insert_ne. intros <-.
  by apply (is_fresh (dom h)).
Qed.

Lemma app_singleton_neq (l : list message) (m : message) : l ++ [m] <> l.
Proof.
  intros H. apply (f_equal length) in H. rewrite length_app in H. simpl in H. lia.
Qed.

(** ** C1: nothing of the producer is seen after a rejection *)

(** C1 as stated fails: the guard rejects, the producer's task has ended
    with ValueError, and the node gives back no [Blocked] outcome: the
    ValueError leaves the node from [await llm_task]. *)
Lemma rejected_yet_not_blocked :
  let rw := run (reject_after 1) (producer_raising ValueError)
              demo_state (initial demo_heap) in
  fate (reject_after 1 "Generate something that violates policy") = Result false
  /\ rw.1 = Raised ValueError
  /\ ~ (exists reason, outcome_of rw = Some (Blocked reason)).
Proof.
  vm_compute. split; [done|]. split; [done|].
  intros [reason H]. discriminate.
Qed.

(** C1 (amended): when the guard resolves to a verdict, the caller sees a
    message list other than its own iff the verdict is accepted and the
    producer returned.  After a rejection the heap is as it was, the
    outcome is never [Completed], a returned state is the blocked state,
    the node returns it whenever the producer's task ended with a result
    (before or after the rejection) or with CancelledError, and any
    other exception of the producer leaves the node instead. *)
Theorem artifact_only_after_acceptance guard producer state w b :
  let msgs := heap w !!! messages state in
  let g := guard (user_message_of msgs) in
  let p := producer msgs in
  let rw := run guard producer state w in
  fate g = Result b ->
  (artifact_observable state w rw <-> b = true /\ exists a, fate p = Result a)
  /\ (b = false ->
      heap rw.2 = heap w
      /\ (forall a, outcome_of rw <> Some (Completed a))
      /\ (forall s, rw.1 = Returned s -> s = blocked_state state)
      /\ ((exists a, llm_after_cancel g p = Result a)
          \/ llm_after_cancel g p = Exc CancelledError ->
          rw.1 = Returned (blocked_state state)
          /\ outcome_of rw = Some (Blocked blocked_message))
      /\ (forall e, e <> CancelledError -> llm_after_cancel g p = Exc e ->
          rw.1 = Raised e)
      /\ (forall a, fate p = Result a -> duration p <= duration g ->
          rw.1 = Returned (blocked_state state))).
Proof.
  intros msgs g p rw Hg.
  assert (Hrw : rw =
    match b with
    | false => (rejection_result (llm_after_cancel g p) state, after_rejection g p w)
    | true =>
        match fate p with
        | Result a =>
            (Returned {| messages := fresh (dom (heap w));
                         guardrail_passed := true; error := None |},
             with_list (fresh (dom (heap w))) (msgs ++ [HumanMessage a])
               (after_acceptance g p w))
        | Exc e => (Raised e, after_acceptance g p w)
        end
    end).
  { unfold rw. rewrite run_eq. fold msgs. fold g. fold p. rewrite Hg. by destruct b. }
  clearbody rw. subst rw. split.
  - destruct b.
    + destruct (fate p) as [a|e] eqn:Hp.
      * split; [intros _; eauto|]. intros _.
        eexists. split; [done|]. simpl.
        rewrite total_lookup_fresh. apply app_singleton_neq.
      * split; [intros (s & Hs & _); discriminate|].
        intros (_ & a & Ha). discriminate.
    + split; [|intros [? _]; discriminate].
      intros (s & Hs & Hne). simpl in Hs, Hne. exfalso.
      destruct (rejection_result_cases (llm_after_cancel g p) state)
        as [E|(e & _ & _ & E)]; rewrite E in Hs; [|discriminate].
      injection Hs as <-. by apply Hne.
  - intros ->. simpl.
    split; [done|].
    split.
    { intros a. unfold outcome_of. simpl.
      destruct (rejection_result_cases (llm_after_cancel g p) state)
        as [E|(e & _ & _ & E)]; rewrite E; simpl; discriminate. }
    split.
    { intros s Hs.
      destruct (rejection_result_cases (llm_after_cancel g p) state)
        as [E|(e & _ & _ & E)]; rewrite E in Hs; [|discriminate].
      by injection Hs. }
    split.
    { intros [[a Ha]|Ha]; rewrite Ha; unfold outcome_of; simpl; done. }
    split.
    { intros e Hne He. rewrite He. destruct e; [done|done..]. }
    intros a Hp Hd. rewrite llm_after_cancel_done, Hp; done.
Qed.

(** An instance: the producer returned its text before the guard
    rejected; the text is dropped. *)
Lemma artifact_only_after_acceptance_witness :
  (run (reject_after 1) (produce_after 0 "leak") demo_state (initial demo_heap)).1
  = Returned (blocked_state demo_state).
Proof.
  refine (proj2 (proj2 (proj2 (proj2 (proj2
    (proj2 (artifact_only_after_acceptance
       (reject_after 1) (produce_after 0 "leak") demo_state (initial demo_heap)
       false _) eq_refl))))) "leak" _ _).
  - reflexivity.
  - reflexivity.
  - simpl. lia.
Defined.

(** ** C2: an accepted request gets the producer's text *)

(** C2: when the guard accepts and the producer returns [a], the node
    returns a state with [guardrail_passed = True], [error = None] and a
    message list that is the input list followed by one message whose
    content is exactly [a]: the outcome is [Completed a]. *)
Theorem accepted_passes_through guard producer state w a :
  let msgs := heap w !!! messages state in
  let g := guard (user_message_of msgs) in
  let p := producer msgs in
  let rw := run guard producer state w in
  fate g = Result true ->
  fate p = Result a ->
  exists s,
    rw.1 = Returned s
    /\ guardrail_passed s = true
    /\ error s = None
    /\ heap rw.2 !! messages s = Some (msgs ++ [HumanMessage a])
    /\ content <$> last (heap rw.2 !!! messages s) = Some a
    /\ outcome_of rw = Some (Completed a).
Proof.
  intros msgs g p rw Hg Hp.
  unfold rw. rewrite run_eq. fold msgs. fold g. fold p. rewrite Hg, Hp.
  eexists. split; [done|]. simpl.
  split; [done|]. split; [done|].
  split; [apply lookup_insert_eq|].
  unfold outcome_of. simpl.
  rewrite total_lookup_fresh, last_snoc. done.
Qed.

(** Scenario B of the spec: the guard accepts after one second, the
    producer returns "ok" after two. *)
Lemma accepted_passes_through_witness :
  exists s,
    (run (accept_after 1) (produce_after 2 "ok") demo_state (initial demo_heap)).1
      = Returned s
    /\ guardrail_passed s = true.
Proof.
  destruct (accepted_passes_through (accept_after 1) (produce_after 2 "ok")
              demo_state (initial demo_heap) "ok" eq_refl eq_refl)
    as (s & Hs & Hpassed & _).
  exists s. split; [exact Hs | exact Hpassed].
Defined.

(** ** C3: the rejection branch ends with the producer's task done *)

(** C3: when the guard rejects, the node calls [llm_task.cancel()] right
    after it has the verdict, then awaits the task; between that await
    and the node's resumption the loop only advances tasks, and when the
    node is left (by [return] or by an exception) the task is done. *)
Theorem rejection_waits_for_producer guard producer state w :
  let msgs := heap w !!! messages state in
  let g := guard (user_message_of msgs) in
  let p := producer msgs in
  let rw := run guard producer state w in
  fate g = Result false ->
  llm_task rw.2 = Some (Done (llm_after_cancel g p))
  /\ (exists rounds,
        log rw.2 = log (at_verdict g p w)
                     ++ [EvCancel Llm; EvAwait Llm] ++ rounds ++ [EvResume Llm]
        /\ forallb is_step rounds = true)
  /\ clock rw.2
     = steps_left (request_cancel (llm_at_verdict g p)) + clock (at_verdict g p w).
Proof.
  intros msgs g p rw Hg.
  unfold rw. rewrite run_eq. fold msgs. fold g. fold p. rewrite Hg. simpl.
  split; [done|]. split; [|done].
  eexists. split; [done|]. apply loop_events_is_step.
Qed.

(** Scenario A of the spec: the guard rejects after one second, the
    producer would take thirty; it is cancelled and done when the node
    returns. *)
Lemma rejection_waits_for_producer_witness :
  llm_task (run (reject_after 1) (produce_after 30 "late")
              demo_state (initial demo_heap)).2
  = Some (Done (Exc CancelledError)).
Proof.
  exact (proj1 (rejection_waits_for_producer (reject_after 1)
                  (produce_after 30 "late") demo_state (initial demo_heap) eq_refl)).
Defined.

(** ** C4, C5: exceptions of the two coroutines *)

Lemma steps_left_pending {A} (t : task A) : 0 < steps_left t -> done t = false.
Proof. destruct t; simpl; [done|lia]. Qed.

(** A producer slower than the guard is still running at the verdict. *)
Lemma llm_running_at_verdict g p :
  duration g < duration p -> done (llm_at_verdict g p) = false.
Proof.
  intros Hd. apply steps_left_pending. unfold llm_at_verdict.
  rewrite steps_left_steps. simpl. lia.
Qed.

(** C4 as stated fails: the guard raises ValueError; the node does not
    return a [GuardFailed] outcome, the ValueError leaves it, and the
    producer's task is left suspended with no cancellation requested. *)
Lemma guard_error_escapes :
  let rw := run (guard_raising ValueError) (produce_after 30 "text")
              demo_state (initial demo_heap) in
  rw.1 = Raised ValueError
  /\ outcome_of rw = None
  /\ (EvCancel Llm ∉ log rw.2)
  /\ llm_task rw.2
     = Some (Pending (asyncio_sleep 29 (Finish "text") (Fail CancelledError))
               (Fail CancelledError) false).
Proof.
  vm_compute. split; [done|]. split; [done|]. split; [|done].
  intros H. repeat (apply elem_of_cons in H as [H|H]; [discriminate|]).
  by apply elem_of_nil in H.
Qed.

(** C4 (amended): when the guard raises [e], [e] leaves the node as it is
    and no state is returned; the node never calls [llm_task.cancel()]
    and never awaits the producer's task, which stays in the state it had
    when the guard failed: still running if it is slower than the guard. *)
Theorem guard_error_propagates guard producer state w e :
  let msgs := heap w !!! messages state in
  let g := guard (user_message_of msgs) in
  let p := producer msgs in
  let rw := run guard producer state w in
  fate g = Exc e ->
  rw.1 = Raised e
  /\ outcome_of rw = None
  /\ heap rw.2 = heap w
  /\ llm_task rw.2 = Some (llm_at_verdict g p)
  /\ log rw.2 = log w ++ [EvCreate Guardrail; EvCreate Llm; EvAwait Guardrail]
                      ++ race_events g p ++ [EvResume Guardrail]
  /\ forallb is_step (race_events g p) = true
  /\ (duration g < duration p -> done (llm_at_verdict g p) = false).
Proof.
  intros msgs g p rw Hg.
  unfold rw. rewrite run_eq. fold msgs. fold g. fold p. rewrite Hg. simpl.
  repeat split; try done.
  - apply loop_events_is_step.
  - apply llm_running_at_verdict.
Qed.

Lemma guard_error_propagates_witness :
  (run (guard_raising ValueError) (produce_after 30 "text")
     demo_state (initial demo_heap)).1 = Raised ValueError.
Proof.
  exact (proj1 (guard_error_propagates (guard_raising ValueError)
                  (produce_after 30 "text") demo_state (initial demo_heap)
                  ValueError eq_refl)).
Defined.

(** C5 as stated fails: the guard accepts and the producer raises
    ValueError; the node returns no [ProducerFailed] outcome, the
    ValueError leaves it from [await llm_task]. *)
Lemma producer_error_escapes :
  let rw := run (accept_after 1) (producer_raising ValueError)
              demo_state (initial demo_heap) in
  fate (accept_after 1 "Generate something that violates policy") = Result true
  /\ rw.1 = Raised ValueError
  /\ outcome_of rw = None.
Proof. vm_compute. done. Qed.

(** C5 (amended): when the guard accepts and the producer's task ends
    with the exception [e], [e] leaves the node as it is: no state is
    returned, no list is created. *)
Theorem producer_error_propagates guard producer state w e :
  let msgs := heap w !!! messages state in
  let g := guard (user_message_of msgs) in
  let p := producer msgs in
  let rw := run guard producer state w in
  fate g = Result true ->
  fate p = Exc e ->
  rw.1 = Raised e
  /\ outcome_of rw = None
  /\ heap rw.2 = heap w
  /\ llm_task rw.2 = Some (Done (Exc e)).
Proof.
  intros msgs g p rw Hg Hp.
  unfold rw. rewrite run_eq. fold msgs. fold g. fold p. rewrite Hg, Hp.
  repeat split. simpl. by rewrite Hp.
Qed.

Lemma producer_error_propagates_witness :
  (run (accept_after 1) (producer_raising ValueError)
     demo_state (initial demo_heap)).1 = Raised ValueError.
Proof.
  exact (proj1 (producer_error_propagates (accept_after 1)
                  (producer_raising ValueError) demo_state (initial demo_heap)
                  ValueError eq_refl eq_refl)).
Defined.

(** ** C6: the node has no timeouts *)

Lemma steps_left_at_verdict g p :
  steps_left (llm_at_verdict g p) = S (duration p) - S (duration g).
Proof. unfold llm_at_verdict. by rewrite steps_left_steps. Qed.

(** C6 as stated fails: the node takes the state only, so no
    [guard_timeout] reaches it; with a guard that accepts after ten
    rounds, longer than a bound of two rounds, the outcome is not
    [GuardFailed]: the node waits the eleven rounds and completes. *)
Lemma slow_guard_is_awaited :
  let rw := run (accept_after 10) (produce_after 0 "ok")
              demo_state (initial demo_heap) in
  2 < duration (accept_after 10 "Generate something that violates policy")
  /\ outcome_of rw = Some (Completed "ok")
  /\ clock rw.2 = 11.
Proof. vm_compute. split; [lia|done]. Qed.

(** C6 (amended): the node has no options and no timeout.  Whatever
    bounds one has in mind, a guard that accepts after more rounds than
    [guard_timeout] and a producer that returns after more rounds than
    [producer_timeout] are both awaited to their end: the outcome is
    [Completed] with the producer's text, after as many rounds as the
    slower of the two needs. *)
Theorem slow_collaborators_are_awaited guard producer state w a
    (guard_timeout producer_timeout : nat) :
  let msgs := heap w !!! messages state in
  let g := guard (user_message_of msgs) in
  let p := producer msgs in
  let rw := run guard producer state w in
  guard_timeout < duration g ->
  producer_timeout < duration p ->
  fate g = Result true ->
  fate p = Result a ->
  outcome_of rw = Some (Completed a)
  /\ clock rw.2 = S (Nat.max (duration g) (duration p)) + clock w
  /\ guard_timeout < clock rw.2 - clock w
  /\ producer_timeout < clock rw.2 - clock w.
Proof.
  intros msgs g p rw Hgt Hpt Hg Hp.
  assert (Hclock : clock rw.2 = S (Nat.max (duration g) (duration p)) + clock w).
  { unfold rw. rewrite run_eq. fold msgs. fold g. fold p. rewrite Hg, Hp.
    simpl. rewrite steps_left_at_verdict. lia. }
  split.
  - unfold rw. rewrite run_eq. fold msgs. fold g. fold p. rewrite Hg, Hp.
    unfold outcome_of. simpl. by rewrite total_lookup_fresh, last_snoc.
  - rewrite Hclock. repeat split; lia.
Qed.

Lemma slow_collaborators_are_awaited_witness :
  outcome_of (run (accept_after 10) (produce_after 40 "ok")
                demo_state (initial demo_heap))
  = Some (Completed "ok").
Proof.
  refine (proj1 (slow_collaborators_are_awaited (accept_after 10)
                   (produce_after 40 "ok") demo_state (initial demo_heap)
                   "ok" 2 5 _ _ eq_refl eq_refl)); simpl; lia.
Defined.

(** ** C7: both tasks are created before the node first suspends *)

Lemma count_steps_app t l1 l2 :
  count_steps t (l1 ++ l2) = count_steps t l1 + count_steps t l2.
Proof. unfold count_steps. by rewrite filter_app, length_app. Qed.

Lemma count_steps_slot {A} (t name : tid) (slot : task A) :
  count_steps t (step_slot name (Some slot)).2
  = if decide (t = name) then Nat.min 1 (steps_left slot) else 0.
Proof.
  destruct slot as [k h mc|r]; unfold count_steps; simpl.
  - destruct (decide (t = name)) as [->|Hne].
    + by rewrite filter_cons_True.
    + rewrite filter_cons_False; [done|]. congruence.
  - by destruct (decide (t = name)).
Qed.

(** In [n] rounds a task is advanced once per round until it is done. *)
Lemma count_steps_loop n tg tl :
  count_steps Guardrail (loop_events n (Some tg) (Some tl)) = Nat.min n (steps_left tg)
  /\ count_steps Llm (loop_events n (Some tg) (Some tl)) = Nat.min n (steps_left tl).
Proof.
  revert tg tl; induction n as [|n IH]; intros tg tl; [done|].
  cbn [loop_events]. rewrite !count_steps_app, !count_steps_slot, !step_slot_fst.
  simpl fmap. destruct (IH (step_task tg) (step_task tl)) as [-> ->].
  rewrite !steps_left_step.
  repeat case_decide; try congruence. lia.
Qed.

Lemma log_at_verdict_prefix g p w tail :
  log (at_verdict g p w) ++ tail
  = log w ++ [EvCreate Guardrail; EvCreate Llm; EvAwait Guardrail]
          ++ race_events g p ++ EvResume Guardrail :: tail.
Proof. unfold at_verdict. simpl. rewrite <- !app_assoc. simpl. by rewrite <- !app_assoc. Qed.

(** The start of every trace, and the guard's task at the end. *)
Lemma trace_prefix_and_guard guard producer state w :
  let msgs := heap w !!! messages state in
  let g := guard (user_message_of msgs) in
  let p := producer msgs in
  let rw := run guard producer state w in
  (exists rest,
     log rw.2 = log w ++ [EvCreate Guardrail; EvCreate Llm; EvAwait Guardrail]
                      ++ race_events g p ++ EvResume Guardrail :: rest)
  /\ guardrail_task rw.2 = Some (Done (fate g)).
Proof.
  intros msgs g p rw. split.
  - unfold rw. rewrite run_eq. fold msgs. fold g. fold p.
    destruct (fate g) as [[|]|e]; [destruct (fate p)|..].
    + eexists. rewrite <- log_at_verdict_prefix. reflexivity.
    + eexists. rewrite <- log_at_verdict_prefix. reflexivity.
    + eexists. rewrite <- log_at_verdict_prefix. reflexivity.
    + exists []. rewrite <- log_at_verdict_prefix. by rewrite app_nil_r.
  - unfold rw. rewrite run_eq. fold msgs. fold g. fold p.
    destruct (fate g) as [[|]|e] eqn:Hg; [destruct (fate p)|..];
      simpl; by rewrite ?Hg.
Qed.

(** C7: in every invocation the trace starts with the creation of the
    guard's task and of the producer's task, then the node suspends on
    the guard's task; until it resumes with the guard's outcome the loop
    only advances tasks (the producer's task is neither awaited nor
    cancelled), the first round advances both, the guard's task is
    advanced once per round for exactly the rounds it needs, whatever the
    producer does, and the producer's task is advanced in each of these
    rounds as long as it is not done. *)
Theorem tasks_race_from_the_start guard producer state w :
  let msgs := heap w !!! messages state in
  let g := guard (user_message_of msgs) in
  let p := producer msgs in
  let rw := run guard producer state w in
  (exists rest,
     log rw.2 = log w ++ [EvCreate Guardrail; EvCreate Llm; EvAwait Guardrail]
                      ++ race_events g p ++ EvResume Guardrail :: rest)
  /\ forallb is_step (race_events g p) = true
  /\ (exists more, race_events g p = EvStep Guardrail :: EvStep Llm :: more)
  /\ count_steps Guardrail (race_events g p) = S (duration g)
  /\ count_steps Llm (race_events g p) = Nat.min (S (duration g)) (S (duration p))
  /\ guardrail_task rw.2 = Some (Done (fate g)).
Proof.
  intros msgs g p rw.
  destruct (trace_prefix_and_guard guard producer state w)
    as (Hlog & Hguard).
  split; [exact Hlog|].
  split; [apply loop_events_is_step|].
  split; [unfold race_events; simpl; eauto|].
  destruct (count_steps_loop (S (duration g)) (spawn g) (spawn p)) as [Hcg Hcl].
  split; [unfold race_events; rewrite Hcg; simpl; lia|].
  split; [unfold race_events; rewrite Hcl; done|].
  exact Hguard.
Qed.

(** ** C10: the node as shipped *)

Lemma check_guardrail_fate um : fate (check_guardrail um) = Result false.
Proof. reflexivity. Qed.

Lemma shipped_llm_after_cancel um msgs :
  llm_after_cancel (check_guardrail um) (generate_llm_response msgs)
  = Exc CancelledError.
Proof. reflexivity. Qed.

Lemma parallel_guardrail_node_eq state w :
  (parallel_guardrail_node state w).1 = Returned (blocked_state state).
Proof.
  unfold parallel_guardrail_node. rewrite run_eq.
  by rewrite check_guardrail_fate, shipped_llm_after_cancel.
Qed.

(** C10: [check_guardrail] ends with [False] for every string, and every
    invocation of the compiled graph returns the input's message list
    with [guardrail_passed = False] and the content-policy error. *)
Theorem shipped_graph_always_blocks :
  (forall user_message, fate (check_guardrail user_message) = Result false)
  /\ (forall state w,
        (app_ainvoke state w).1
        = Returned {| messages := messages state;
                      guardrail_passed := false;
                      error := Some "Request blocked due to content policy violation" |}).
Proof.
  split; [apply check_guardrail_fate|].
  intros state w. apply parallel_guardrail_node_eq.
Qed.

(** ** C8: an empty message list *)

(** C8: with an empty message list the node does not index the list: the
    guard is called with the empty string and the producer with the empty
    list, both tasks are created and raced as usual, and an exception can
    only leave the node if one of the two coroutines raised it.  The
    node returns the blocked state after a rejection that the producer's
    task survives or acknowledges, a one-message list after an acceptance,
    and as shipped it returns the blocked state. *)
Theorem empty_messages_are_accepted guard producer state w :
  let g := guard "" in
  let p := producer [] in
  let rw := run guard producer state w in
  heap w !!! messages state = [] ->
  (exists rest,
     log rw.2 = log w ++ [EvCreate Guardrail; EvCreate Llm; EvAwait Guardrail]
                      ++ race_events g p ++ EvResume Guardrail :: rest)
  /\ guardrail_task rw.2 = Some (Done (fate g))
  /\ (forall e, rw.1 = Raised e ->
        fate g = Exc e
        \/ (fate g = Result false /\ llm_after_cancel g p = Exc e)
        \/ (fate g = Result true /\ fate p = Exc e))
  /\ (fate g = Result false ->
      (exists a, llm_after_cancel g p = Result a)
      \/ llm_after_cancel g p = Exc CancelledError ->
      rw.1 = Returned (blocked_state state))
  /\ (forall a, fate g = Result true -> fate p = Result a ->
      exists s, rw.1 = Returned s /\ guardrail_passed s = true
        /\ heap rw.2 !! messages s = Some [HumanMessage a])
  /\ (parallel_guardrail_node state w).1 = Returned (blocked_state state).
Proof.
  intros g p rw Hempty.
  pose proof (trace_prefix_and_guard guard producer state w) as Haux.
  pose proof (run_eq guard producer state w) as Hrun.
  cbv zeta in Haux, Hrun. rewrite Hempty in Haux, Hrun.
  change (user_message_of []) with "" in Haux, Hrun.
  fold g in Haux, Hrun. fold p in Haux, Hrun. fold rw in Haux, Hrun.
  destruct Haux as (Hlog & Hguard).
  split; [exact Hlog|]. split; [exact Hguard|].
  split.
  { intros e He. rewrite Hrun in He.
    destruct (fate g) as [[|]|e'] eqn:Hg.
    - destruct (fate p) as [a|e''] eqn:Hp; [discriminate|].
      right; right. split; [done|]. simpl in He. congruence.
    - right; left. split; [done|]. simpl in He.
      destruct (rejection_result_cases (llm_after_cancel g p) state)
        as [E|(e0 & _ & Hc & E)]; rewrite E in He; [discriminate|].
      congruence.
    - left. simpl in He. congruence. }
  split.
  { intros Hg Hc. rewrite Hrun, Hg. simpl.
    destruct Hc as [[a Ha]|Ha]; by rewrite Ha. }
  split.
  { intros a Hg Hp. rewrite Hrun, Hg, Hp. eexists. split; [done|].
    split; [done|]. simpl. apply lookup_insert_eq. }
  apply parallel_guardrail_node_eq.
Qed.

Lemma empty_messages_are_accepted_witness :
  (run (accept_after 1) (produce_after 2 "ok")
     {| messages := 0; guardrail_passed := false; error := None |}
     (initial empty_heap)).2.(guardrail_task)
  = Some (Done (Result true)).
Proof.
  exact (proj1 (proj2 (empty_messages_are_accepted (accept_after 1)
    (produce_after 2 "ok")
    {| messages := 0; guardrail_passed := false; error := None |}
    (initial empty_heap) eq_refl))).
Defined.

(** ** C9: the input list is shared or extended in a copy, never changed *)

(** C9: no list that exists when the node is called is changed by it, the
    input's list included.  A state returned after a rejection refers to
    the very list of the input, and the heap is as it was; a state
    returned after an acceptance refers to a list created by the node,
    which holds the input's messages followed by exactly one message
    with the producer's text; a returned state is always one of the two. *)
Theorem messages_shared_or_copied guard producer state w :
  let msgs := heap w !!! messages state in
  let g := guard (user_message_of msgs) in
  let p := producer msgs in
  let rw := run guard producer state w in
  (forall l, l ∈ dom (heap w) -> heap rw.2 !! l = heap w !! l)
  /\ (forall s, rw.1 = Returned s -> fate g = Result false ->
        messages s = messages state /\ heap rw.2 = heap w)
  /\ (forall s, rw.1 = Returned s -> fate g = Result true ->
        exists a, fate p = Result a
          /\ (messages s ∉ dom (heap w))
          /\ heap rw.2 !! messages s = Some (msgs ++ [HumanMessage a]))
  /\ (forall s, rw.1 = Returned s ->
        fate g = Result false \/ fate g = Result true).
Proof.
  intros msgs g p rw.
  pose proof (run_eq guard producer state w) as Hrun.
  cbv zeta in Hrun. fold msgs in Hrun. fold g in Hrun. fold p in Hrun.
  fold rw in Hrun.
  destruct (fate g) as [[|]|e] eqn:Hg.
  - destruct (fate p) as [a|e] eqn:Hp; rewrite Hrun; simpl.
    + split; [intros l Hl; by apply lookup_other_fresh|].
      split; [intros s _ Hf; discriminate|].
      split; [|eauto].
      intros s Hs _. injection Hs as <-. exists a. simpl.
      split; [done|]. split; [apply is_fresh|apply lookup_insert_eq].
    + split; [done|]. repeat split; intros; discriminate.
  - rewrite Hrun. simpl.
    split; [done|].
    split.
    { intros s Hs _. split; [|done].
      destruct (rejection_result_cases (llm_after_cancel g p) state)
        as [E|(e & _ & _ & E)]; rewrite E in Hs; [|discriminate].
      by injection Hs as <-. }
    split; [intros s _ Hf; discriminate|eauto].
  - rewrite Hrun. simpl.
    split; [done|]. repeat split; intros; discriminate.
Qed.

(** ** The demo of the [__main__] block *)

Example stubborn_producer_is_awaited :
  let (r, w) := run (reject_after 1) (stubborn_producer "late")
                  demo_state (initial demo_heap) in
  r = Returned (blocked_state demo_state)
  /\ llm_task w = Some (Done (Result "late"))
  /\ heap w = demo_heap.
Proof. vm_compute. auto. Qed.

(** * Further properties of the code *)

(** ** The two coroutines of langgraph_demo.py *)

Lemma llm_pending_before_31 msgs n :
  n <= 30 ->
  done (steps n (spawn (generate_llm_response msgs))) = false
  /\ ending (request_cancel (steps n (spawn (generate_llm_response msgs))))
     = Exc CancelledError
  /\ steps_left (request_cancel (steps n (spawn (generate_llm_response msgs)))) = 1.
Proof.
  intros Hn.
  do 31 (destruct n as [|n]; [by vm_compute|]). lia.
Qed.

Lemma llm_done_from_31 msgs n :
  31 <= n ->
  steps n (spawn (generate_llm_response msgs)) = Done (Result llm_text).
Proof.
  intros Hn. rewrite steps_enough; [done|]. simpl. lia.
Qed.

(** X1: [generate_llm_response] needs 31 rounds of the loop (its start and
    the 30 seconds of sleep), whatever the messages.  Cancelled in any
    round before that, its task ends with CancelledError at the next
    round and never with a text; from round 31 on the task is done with
    the fixed text and a cancellation changes nothing. *)
Theorem generate_llm_response_cancellation msgs n :
  (n <= 30 ->
   done (steps n (spawn (generate_llm_response msgs))) = false
   /\ step_task (request_cancel (steps n (spawn (generate_llm_response msgs))))
      = Done (Exc CancelledError))
  /\ (31 <= n ->
      request_cancel (steps n (spawn (generate_llm_response msgs)))
      = Done (Result llm_text)).
Proof.
  split.
  - intros Hn. split; [by apply llm_pending_before_31|].
    do 31 (destruct n as [|n]; [by vm_compute|]). lia.
  - intros Hn. by rewrite llm_done_from_31.
Qed.

(** X2: [check_guardrail] needs two rounds of the loop (its start and
    one second of sleep), whatever the message: before that its task is
    not done, from then on it is done with [False]. *)
Theorem check_guardrail_two_rounds user_message n :
  (n < 2 -> done (steps n (spawn (check_guardrail user_message))) = false)
  /\ (2 <= n ->
      steps n (spawn (check_guardrail user_message)) = Done (Result false)).
Proof.
  split.
  - intros Hn. destruct n as [|[|n]]; [done..|lia].
  - intros Hn. rewrite steps_enough; [done|]. simpl. lia.
Qed.

(** ** The node as shipped, and with the shipped producer *)

(** X3: as shipped the node returns after three rounds of the loop for
    every input, with the same trace: both tasks are advanced twice, the
    guard's task is then done, the LLM task is cancelled and advanced
    once more to take the cancellation.  The LLM task, which needs 31
    rounds, is advanced three times in all and ends cancelled. *)
Theorem parallel_guardrail_node_trace state w :
  parallel_guardrail_node state w
  = (Returned (blocked_state state),
     {| heap := heap w;
        guardrail_task := Some (Done (Result false));
        llm_task := Some (Done (Exc CancelledError));
        clock := 3 + clock w;
        log := log w ++ shipped_trace |}).
Proof.
  unfold parallel_guardrail_node. rewrite run_eq.
  rewrite check_guardrail_fate, shipped_llm_after_cancel.
  unfold after_rejection, at_verdict, shipped_trace. simpl.
  rewrite <- !app_assoc. reflexivity.
Qed.

(** X4: with [generate_llm_response] as the producer, a rejection by any
    guard always gives the blocked state, never an exception: a guard
    that decides within 29 rounds finds the LLM asleep and the node
    returns two rounds after the guard's last suspension; a slower guard
    finds the LLM done, its text is dropped and the node returns at
    once. *)
Theorem rejection_with_shipped_llm guard state w :
  let g := guard (user_message_of (heap w !!! messages state)) in
  let rw := run guard generate_llm_response state w in
  fate g = Result false ->
  rw.1 = Returned (blocked_state state)
  /\ heap rw.2 = heap w
  /\ llm_task rw.2
     = Some (Done (if decide (duration g <= 29)
                   then Exc CancelledError else Result llm_text))
  /\ clock rw.2
     = (if decide (duration g <= 29) then duration g + 2 else duration g + 1)
       + clock w.
Proof.
  intros g rw Hg. unfold rw. rewrite run_eq. fold g. rewrite Hg.
  set (msgs := heap w !!! messages state).
  assert (Hc : request_cancel (llm_at_verdict g (generate_llm_response msgs))
               = request_cancel (steps (S (duration g))
                                   (spawn (generate_llm_response msgs))))
    by reflexivity.
  unfold llm_after_cancel, after_rejection.
  cbv zeta. rewrite Hc. clear Hc.
  destruct (decide (duration g <= 29)) as [Hd|Hd].
  - destruct (llm_pending_before_31 msgs (S (duration g))) as (_ & He & Hl); [lia|].
    rewrite He, Hl. repeat split. simpl. lia.
  - rewrite (llm_done_from_31 msgs (S (duration g))) by lia.
    repeat split. simpl. lia.
Qed.

Lemma rejection_with_shipped_llm_witness :
  (run (reject_after 5) generate_llm_response demo_state (initial demo_heap)).1
  = Returned (blocked_state demo_state).
Proof.
  exact (proj1 (rejection_with_shipped_llm (reject_after 5) demo_state
                  (initial demo_heap) eq_refl)).
Defined.

(** X5: with [generate_llm_response] as the producer, an acceptance by
    any guard gives a state with [guardrail_passed = True], no error and a
    new list: the input's messages followed by one [HumanMessage] with
    the fixed text.  The node returns after as many rounds as the slower
    of the guard and the 30 seconds of the LLM needs. *)
Theorem acceptance_with_shipped_llm guard state w :
  let msgs := heap w !!! messages state in
  let g := guard (user_message_of msgs) in
  let rw := run guard generate_llm_response state w in
  fate g = Result true ->
  rw.1 = Returned {| messages := fresh (dom (heap w));
                     guardrail_passed := true; error := None |}
  /\ heap rw.2 = <[fresh (dom (heap w)) := msgs ++ [HumanMessage llm_text]]> (heap w)
  /\ clock rw.2 = S (Nat.max (duration g) 30) + clock w.
Proof.
  intros msgs g rw Hg. unfold rw. rewrite run_eq. fold msgs. fold g. rewrite Hg.
  change (fate (generate_llm_response msgs)) with (Result llm_text).
  cbv iota. repeat split.
  simpl. rewrite steps_left_at_verdict.
  change (duration (generate_llm_response msgs)) with 30. lia.
Qed.

Lemma acceptance_with_shipped_llm_witness :
  clock (run (accept_after 1) generate_llm_response demo_state
           (initial demo_heap)).2 = 31.
Proof.
  exact (proj2 (proj2 (acceptance_with_shipped_llm (accept_after 1) demo_state
                         (initial demo_heap) eq_refl))).
Defined.

(** ** The report of [__main__] in langgraph_demo.py *)

Lemma report_blocked state w :
  report (blocked_state state) w
  = (Returned [bar; "Guardrail passed: False";
               "Error: " +:+ blocked_message; bar +:+ nl], w).
Proof. reflexivity. Qed.

Lemma report_completed (l : loc) msgs a w :
  heap w !!! l = msgs ++ [HumanMessage a] ->
  report {| messages := l; guardrail_passed := true; error := None |} w
  = (Returned [bar; "Guardrail passed: True"; "Response: " +:+ a; bar +:+ nl], w).
Proof.
  intros Hl. unfold report, bind, deref, getitem_last, ret. simpl.
  rewrite Hl, last_snoc. reflexivity.
Qed.

(** X6: whatever the guard, the producer and the input, the report that
    [__main__] prints fits every state the node can return: it never
    fails on [result['messages'][-1]], not even for an empty input list.
    After a rejection it prints the error line and does not touch the
    messages; after an acceptance it prints the producer's text as the
    response. *)
Theorem report_after_run guard producer state w s w' :
  let msgs := heap w !!! messages state in
  run guard producer state w = (Returned s, w') ->
  exists line,
    report s w'
    = (Returned [bar; "Guardrail passed: " +:+ str_bool (guardrail_passed s);
                 line; bar +:+ nl], w')
    /\ ((fate (guard (user_message_of msgs)) = Result false
         /\ guardrail_passed s = false
         /\ line = "Error: Request blocked due to content policy violation")
        \/ (exists a, fate (guard (user_message_of msgs)) = Result true
              /\ fate (producer msgs) = Result a
              /\ guardrail_passed s = true
              /\ line = "Response: " +:+ a)).
Proof.
  intros msgs. rewrite run_eq. fold msgs.
  destruct (fate (guard (user_message_of msgs))) as [[|]|e] eqn:Hg.
  - destruct (fate (producer msgs)) as [a|e] eqn:Hp; [|discriminate].
    intros [= <- <-]. eexists. split.
    + apply (report_completed _ msgs a). apply total_lookup_fresh.
    + right. by exists a.
  - destruct (rejection_result_cases
                (llm_after_cancel (guard (user_message_of msgs)) (producer msgs))
                state) as [->|(e & _ & _ & ->)]; [|discriminate].
    intros [= <- <-]. eexists. split; [apply report_blocked|]. by left.
  - discriminate.
Qed.

Lemma report_after_run_witness :
  exists line,
    report (blocked_state demo_state)
      (after_rejection (reject_after 1 "Generate something that violates policy")
         (produce_after 3 "ok" (demo_heap !!! 0)) (initial demo_heap))
    = (Returned [bar; "Guardrail passed: False"; line; bar +:+ nl],
       after_rejection (reject_after 1 "Generate something that violates policy")
         (produce_after 3 "ok" (demo_heap !!! 0)) (initial demo_heap)).
Proof.
  destruct (report_after_run (reject_after 1) (produce_after 3 "ok")
              demo_state (initial demo_heap) _ _ eq_refl) as (line & H & _).
  exists line. exact H.
Defined.


(** X8: the node wraps the producer's text in a [HumanMessage].  Given
    back to the node, whatever the guard and the producer of that second
    call, the state returned after an acceptance makes the guard check
    the producer's own text as the user's message. *)
Theorem response_is_next_user_message guard producer state w a :
  let msgs := heap w !!! messages state in
  let rw := run guard producer state w in
  fate (guard (user_message_of msgs)) = Result true ->
  fate (producer msgs) = Result a ->
  exists s, rw.1 = Returned s
    /\ msg_role <$> last (heap rw.2 !!! messages s) = Some Human
    /\ user_message_of (heap rw.2 !!! messages s) = a
    /\ forall guard' producer',
         guardrail_task (run guard' producer' s rw.2).2
         = Some (Done (fate (guard' a))).
Proof.
  intros msgs rw Hg Hp.
  assert (Hrw : rw = (Returned {| messages := fresh (dom (heap w));
                                  guardrail_passed := true; error := None |},
                      with_list (fresh (dom (heap w))) (msgs ++ [HumanMessage a])
                        (after_acceptance (guard (user_message_of msgs))
                           (producer msgs) w))).
  { unfold rw. rewrite run_eq. fold msgs. by rewrite Hg, Hp. }
  rewrite Hrw. eexists. split; [reflexivity|].
  assert (Hl : heap (with_list (fresh (dom (heap w))) (msgs ++ [HumanMessage a])
                       (after_acceptance (guard (user_message_of msgs))
                          (producer msgs) w))
               !!! (fresh (dom (heap w)) : loc) = msgs ++ [HumanMessage a])
    by apply total_lookup_fresh.
  cbn [fst snd messages]. rewrite Hl.
  assert (Hu : user_message_of (msgs ++ [HumanMessage a]) = a)
    by (unfold user_message_of; by rewrite last_snoc).
  split; [by rewrite last_snoc|]. split; [done|].
  intros guard' producer'.
  destruct (trace_prefix_and_guard guard' producer'
              {| messages := fresh (dom (heap w));
                 guardrail_passed := true; error := None |}
              (with_list (fresh (dom (heap w))) (msgs ++ [HumanMessage a])
                 (after_acceptance (guard (user_message_of msgs))
                    (producer msgs) w))) as [_ H].
  cbn [messages] in H. rewrite Hl, Hu in H. exact H.
Qed.

Lemma response_is_next_user_message_witness :
  exists s,
    (run (accept_after 1) (produce_after 3 "ok") demo_state (initial demo_heap)).1
    = Returned s
    /\ user_message_of
         (heap (run (accept_after 1) (produce_after 3 "ok") demo_state
                  (initial demo_heap)).2 !!! messages s) = "ok".
Proof.
  destruct (response_is_next_user_message (accept_after 1) (produce_after 3 "ok")
              demo_state (initial demo_heap) "ok" eq_refl eq_refl)
    as (s & H1 & _ & H2 & _).
  exists s. split; [exact H1|exact H2].
Defined.

(** ** Strings *)

Lemma length_append (s1 s2 : string) :
  String.length (s1 +:+ s2) = String.length s1 + String.length s2.
Proof. induction s1 as [|a s1 IH]; simpl; [done|by rewrite IH]. Qed.

Lemma str_prefix_length n s : String.length (str_prefix n s) = Nat.min n (String.length s).
Proof.
  unfold str_prefix. revert s; induction n as [|n IH]; intros [|a s]; simpl; try done.
  by rewrite IH.
Qed.

Lemma str_prefix_short n s : String.length s <= n -> str_prefix n s = s.
Proof.
  unfold str_prefix. revert s; induction n as [|n IH]; intros [|a s]; simpl; try done.
  - lia.
  - intros Hn. rewrite IH; [done|lia].
Qed.

(** ** The middleware of create_agent_demo.py and create_deep_agent.py *)

(** X9: as shipped, the input guardrail of create_agent_demo.py lets a
    state through exactly when it has no ["messages"] key or an empty
    list: then the hook returns [None] after the three header lines.  On
    every other state it raises the same [ValueError], whatever the last
    message is and whether or not it has a [content]. *)
Theorem input_guardrail_blocks_nonempty {R} (state : AgentState) (runtime : R) :
  (CreateAgent.before_model state runtime).2
  = match get_messages state with
    | [] => ReturnNone
    | _ :: _ =>
        RaiseValueError
          "Content policy violation: Request blocked by input guardrail"
    end
  /\ ((CreateAgent.before_model state runtime).2 = ReturnNone <->
      agent_messages state = None \/ agent_messages state = Some []).
Proof.
  unfold CreateAgent.before_model.
  destruct (last (get_messages state)) as [m|] eqn:E.
  - assert (Hne : get_messages state <> [])
      by (intros H; apply last_None in H; congruence).
    split.
    + destruct (get_messages state); [done|reflexivity].
    + simpl. split; [discriminate|].
      unfold get_messages in Hne.
      intros [H|H]; rewrite H in Hne; by destruct Hne.
  - apply last_None in E. split; [by rewrite E|].
    split; [|done]. intros _. unfold get_messages in E.
    destruct (agent_messages state) as [l|]; [right; simpl in E; by subst|by left].
Qed.

(** X10: the input guardrail of create_deep_agent.py behaves the same
    way, with its own error text: it returns [None] exactly on a state
    without messages, and raises on every other state. *)
Theorem deep_input_guardrail_blocks_nonempty {R} (state : AgentState) (runtime : R) :
  (DeepAgent.before_model state runtime).2
  = match get_messages state with
    | [] => ReturnNone
    | _ :: _ =>
        RaiseValueError
          "Content policy violation: Deep agent blocked by input guardrail"
    end
  /\ ((DeepAgent.before_model state runtime).2 = ReturnNone <->
      (CreateAgent.before_model state runtime).2 = ReturnNone).
Proof.
  unfold DeepAgent.before_model, CreateAgent.before_model.
  destruct (last (get_messages state)) as [m|] eqn:E.
  - split; [|simpl; split; discriminate].
    destruct (get_messages state); [discriminate|reflexivity].
  - apply last_None in E. by rewrite E.
Qed.

(** X11: the four hooks read the last message only: two states whose
    lists end with the same message get the same printed lines and the
    same end, whatever comes before. *)
Theorem hooks_read_last_message_only {R} (l1 l2 : list item) (x : item) (runtime : R) :
  let s1 := {| agent_messages := Some (l1 ++ [x]) |} in
  let s2 := {| agent_messages := Some (l2 ++ [x]) |} in
  CreateAgent.before_model s1 runtime = CreateAgent.before_model s2 runtime
  /\ CreateAgent.after_model s1 runtime = CreateAgent.after_model s2 runtime
  /\ DeepAgent.before_model s1 runtime = DeepAgent.before_model s2 runtime
  /\ DeepAgent.after_model s1 runtime = DeepAgent.after_model s2 runtime.
Proof.
  intros s1 s2.
  unfold CreateAgent.before_model, CreateAgent.after_model,
    DeepAgent.before_model, DeepAgent.after_model, s1, s2, get_messages.
  simpl default. by rewrite !last_snoc.
Qed.

(** X12: as shipped, the output guardrails of both files never block:
    for every state the hook returns [None].  What they print is bounded
    whatever the size of the response: no line is longer than 113
    characters in create_agent_demo.py and 121 in create_deep_agent.py. *)
Theorem output_guardrails_never_block {R} (state : AgentState) (runtime : R) :
  (CreateAgent.after_model state runtime).2 = ReturnNone
  /\ (DeepAgent.after_model state runtime).2 = ReturnNone
  /\ Forall (fun line => String.length line <= 113)
       (CreateAgent.after_model state runtime).1
  /\ Forall (fun line => String.length line <= 121)
       (DeepAgent.after_model state runtime).1.
Proof.
  unfold CreateAgent.after_model, DeepAgent.after_model.
  destruct (last (get_messages state)) as [m|]; cbn [fst snd app].
  - repeat split.
    + repeat (apply Forall_cons; split); [..|apply Forall_nil];
        try (vm_compute; lia).
      rewrite !length_append, str_prefix_length. simpl String.length. lia.
    + repeat (apply Forall_cons; split); [..|apply Forall_nil];
        try (vm_compute; lia).
      rewrite !length_append, str_prefix_length. simpl String.length. lia.
  - repeat split; repeat (apply Forall_cons; split); try apply Forall_nil;
      vm_compute; lia.
Qed.

(** X13: the output guardrail of create_agent_demo.py prints a response
    of at most 100 characters whole, and still puts the three dots after
    it, although nothing was cut. *)
Theorem short_response_printed_whole {R} (l : list item) (x : item) (runtime : R) :
  String.length (content_or_str x) <= 100 ->
  CreateAgent.after_model {| agent_messages := Some (l ++ [x]) |} runtime
  = ([nl +:+ bar; "MIDDLEWARE: Checking output guardrails..."; bar;
      "Output: '" +:+ content_or_str x +:+ "...'";
      "Result: PASS - response is safe"; "Action: Allowing response" +:+ nl],
     ReturnNone).
Proof.
  intros Hx. unfold CreateAgent.after_model, get_messages. simpl default.
  rewrite last_snoc. cbv zeta. rewrite (str_prefix_short 100 _ Hx). reflexivity.
Qed.

Lemma short_response_printed_whole_witness :
  (CreateAgent.after_model
     {| agent_messages := Some ([Plain "hi"] ++ [WithContent "Paris."]) |} tt).1
  = [nl +:+ bar; "MIDDLEWARE: Checking output guardrails..."; bar;
     "Output: 'Paris....'";
     "Result: PASS - response is safe"; "Action: Allowing response" +:+ nl].
Proof.
  assert (H : String.length (content_or_str (WithContent "Paris.")) <= 100)
    by (simpl; lia).
  exact (f_equal fst (short_response_printed_whole [Plain "hi"]
                        (WithContent "Paris.") tt H)).
Defined.

(** ** The [try] statement of create_agent_demo.py *)


(** X15: when [agent.invoke] returns, Test 1 prints the response only if
    the result's list ends with a message that has a [content].  On an
    empty list the [try] statement is left with [IndexError], on a last
    element without [content] with [AttributeError]; in both cases the
    three lines of the success header have been printed already. *)
Theorem test1_needs_a_last_content (messages : list item) :
  let r := CreateAgent.test1 (CreateAgent.InvokeReturned messages) in
  (r.2 = None <-> exists l c, messages = l ++ [WithContent c])
  /\ (r.2 = Some CreateAgent.IndexErr <-> messages = [])
  /\ (r.2 = Some CreateAgent.AttributeErr <->
      exists l s, messages = l ++ [Plain s])
  /\ take 3 r.1 = [nl +:+ bar; "SUCCESS: Request completed"; bar].
Proof.
  unfold CreateAgent.test1, CreateAgent.last_content.
  destruct (last messages) as [[c|s]|] eqn:E; cbn [fst snd].
  - apply last_Some in E as [l ->]. repeat split; try discriminate.
    + intros _. by exists l, c.
    + intros H. by destruct l.
    + intros (l' & s & H). apply app_inj_tail in H as [_ H]. discriminate.
  - apply last_Some in E as [l ->]. repeat split; try discriminate.
    + intros (l' & c & H). apply app_inj_tail in H as [_ H]. discriminate.
    + intros H. by destruct l.
    + intros _. by exists l, s.
  - apply last_None in E as ->. repeat split; try discriminate; try done.
    + intros (l & c & H). by destruct l.
    + intros (l & s & H). by destruct l.
Qed.

(** X16: the error that the input guardrail raises is one that Test 1
    catches: when [agent.invoke] ends with it, the four lines of the
    blocked report are printed, with the guardrail's text as the reason,
    and no exception is left. *)
Theorem blocked_input_is_reported {R} (state : AgentState) (runtime : R) msg :
  (CreateAgent.before_model state runtime).2 = RaiseValueError msg ->
  CreateAgent.test1 (CreateAgent.InvokeRaised (CreateAgent.ValueErr msg))
  = ([nl +:+ bar; "BLOCKED: Request stopped by input guardrail"; bar;
      "Reason: Content policy violation: Request blocked by input guardrail"
      +:+ nl], None).
Proof.
  unfold CreateAgent.before_model.
  destruct (last (get_messages state)); simpl; [|discriminate].
  by intros [= <-].
Qed.

Lemma blocked_input_is_reported_witness :
  CreateAgent.test1
    (CreateAgent.InvokeRaised
       (CreateAgent.ValueErr
          "Content policy violation: Request blocked by input guardrail"))
  = ([nl +:+ bar; "BLOCKED: Request stopped by input guardrail"; bar;
      "Reason: Content policy violation: Request blocked by input guardrail"
      +:+ nl], None).
Proof.
  exact (blocked_input_is_reported
           {| agent_messages :=
                Some [WithContent "Generate something that violates policy"] |}
           tt _ eq_refl).
Defined.

(** ** The tools *)

(** X17: the two tools answer different queries with different texts,
    and no answer of [search_tool] is an answer of [research_tool]; the
    query is what follows the fixed prefix. *)
Theorem tools_keep_the_query (q1 q2 : string) :
  (CreateAgent.search_tool q1 = CreateAgent.search_tool q2 -> q1 = q2)
  /\ (DeepAgent.research_tool q1 = DeepAgent.research_tool q2 -> q1 = q2)
  /\ CreateAgent.search_tool q1 <> DeepAgent.research_tool q2
  /\ String.substring 20 (String.length q1) (CreateAgent.search_tool q1) = q1
  /\ String.substring 23 (String.length q1) (DeepAgent.research_tool q1) = q1.
Proof.
  assert (Hsub : forall s, String.substring 0 (String.length s) s = s).
  { induction s as [|a s IH]; simpl; [done|by rewrite IH]. }
  unfold CreateAgent.search_tool, DeepAgent.research_tool.
  repeat split.
  - apply String.app_inj.
  - apply String.app_inj.
  - discriminate.
  - simpl. apply Hsub.
  - simpl. apply Hsub.
Qed.
